(** * concurrent-downloader: a shallow embedding of [download_chunk] and
    [download] and the properties of chunk planning, staging and reassembly.

    The script fetches one HTTP resource in byte ranges.  [download] probes
    the size, plans the ranges in a [while] loop that submits one
    [download_chunk] call per range to a thread pool, leaves the pool's
    [with] block (which joins every worker), and then walks the futures in
    submission order, copying each staged chunk file to [out]. *)

From Stdlib Require Import ZArith Lia Ascii String.
From stdpp Require Import base option list gmap strings.

Local Open Scope Z_scope.

(** ** Data *)

(** A name returned by [tempfile.mktemp()]. *)
Definition path := nat.

Abbreviation bytes := (list Byte.byte).

(** The exceptions the two functions can raise or let through.
    - [HTTPError]: raised by [urllib.request.urlopen] for an answer whose
      status is not in 200-299; it carries the status and the reason;
    - [AttributeError]: line 21 reads [res.message], an attribute the response
      object does not have, so building the message of that [Exception]
      raises this instead;
    - [IncompleteRead]: raised by [res.read()] when the body breaks off;
    - [PartialContentNotSupported]: line 23, [Exception("partial content not supported")];
    - [CannotDetermineSize]: line 35, [Exception("cannot determine total download size")];
    - [ValueError]: raised by [int(...)] on line 36 or by [ThreadPoolExecutor(...)];
    - [URLError]: raised by [urllib.request.urlopen];
    - [FileNotFoundError]: raised by [open(chunk_file, "rb")] on line 54. *)
Inductive exn :=
| HTTPError (code : Z) (reason : string)
| AttributeError (name : string)
| IncompleteRead (partial : list Byte.byte)
| PartialContentNotSupported
| CannotDetermineSize
| ValueError (what : string)
| URLError (why : string)
| FileNotFoundError (p : path).

(** A call either returns a value or raises. *)
Inductive result (A : Type) :=
| Ok (a : A)
| Err (e : exn).
Arguments Ok {A} a.
Arguments Err {A} e.

(** The response object of a ranged request, with what [download_chunk]
    can get from it: [res.status], [res.reason], and [res.read()], which
    returns the body or raises.  It has no attribute [message]. *)
Record response := Response {
  status : Z;
  reason : string;
  read : result bytes
}.

(** The HTTP capability behind [url]:
    [urlopen_url] is [urllib.request.urlopen(url)], giving
    [head_res.headers["content-length"]] ([None] when the header is absent);
    [answer_range s e] is the server's final answer to the request carrying
    [Range: bytes=s-e], or the error of a transport that failed. *)
Record server := Server {
  urlopen_url : result (option string);
  answer_range : Z -> Z -> result response
}.

(** [urllib.request.urlopen(req)] for the ranged request: an answer whose
    status is outside 200-299 is not returned but raised as [HTTPError]. *)
Definition urlopen_range (srv : server) (range_start range_end : Z) : result response :=
  match answer_range srv range_start range_end with
  | Err e => Err e
  | Ok res =>
      if (200 <=? status res) && (status res <? 300) then Ok res
      else Err (HTTPError (status res) (reason res))
  end.

(** What [download] does to the pool, kept as a log:
    [Submit] is [executor.submit(download_chunk, url, start, end, chunk_file)],
    [Cancel i] is [f.cancel()] on the future at position [i] of [futures]. *)
Inductive event :=
| Submit (range_start range_end : Z) (chunk_file : path)
| Cancel (i : nat).

(** The mutable surroundings of one [download] call: the file system holding
    the chunk files, the supply of temporary names, the bytes written to
    [out], and the log of pool operations. *)
Record world := World {
  files : gmap path bytes;
  tmp_next : path;
  out : bytes;
  trace : list event
}.

(** [tempfile.mktemp()]: names are numbered in call order, so no two calls
    return the same name. *)
Definition mktemp (w : world) : path * world :=
  (tmp_next w, World (files w) (S (tmp_next w)) (out w) (trace w)).

Definition log (ev : event) (w : world) : world :=
  World (files w) (tmp_next w) (out w) (trace w ++ [ev]).

Definition set_files (fs : gmap path bytes) (w : world) : world :=
  World fs (tmp_next w) (out w) (trace w).

(** [out.write(data)] *)
Definition write (data : bytes) (w : world) : world :=
  World (files w) (tmp_next w) (out w ++ data) (trace w).

(** ** [download_chunk] (lines 16-29) *)

Definition PARTIAL_CONTENT : Z := 206.

(** The call returns its range and the file system it leaves.  Since
    [urlopen] returns 2xx responses only, the test of line 20 never holds;
    were it to hold, line 21 would fail on [res.message].  From line 24 on
    [outfile] exists: a body that cannot be read leaves it empty.  The file
    system itself is taken to accept every [open] and [write]. *)
Definition download_chunk(srv : server) (range_start range_end : Z)
    (outfile : path) (fs : gmap path bytes) : result (Z * Z) * gmap path bytes :=
  match urlopen_range srv range_start range_end with
  | Err e => (Err e, fs)
  | Ok res =>
      if status res >=? 400 then
        (Err (AttributeError "message"), fs)
      else if negb (status res =? PARTIAL_CONTENT) then
        (Err PartialContentNotSupported, fs)
      else
        (* [open(outfile, "wb")] has created or emptied the file when
           [res.read()] is evaluated *)
        match read res with
        | Err e => (Err e, <[outfile := []]> fs)
        | Ok data => (Ok (range_start, range_end), <[outfile := data]> fs)
        end
  end.

(** ** [download] (lines 32-55) *)

(** A submitted call [download_chunk(url, start, end, chunk_file)]: the
    future of line 43 before the pool has run it. *)
Record call := Call {
  call_start : Z;
  call_end : Z;
  call_file : path
}.

(** The planning loop, lines 39-45.  [futures] grows by one
    [(future, chunk_file)] pair per iteration.  The loop need not end, so it
    runs on [fuel]; [None] means the fuel ran out. *)
Fixpoint plan_loop (fuel : nat) (size chunk_size start : Z)
    (futures : list (call * path)) (w : world) : option (list (call * path) * world) :=
  match fuel with
  | O => None
  | S fuel' =>
      if start <? size then
        let end_ := Z.min (start + chunk_size - 1) size in
        let '(chunk_file, w1) := mktemp w in
        let future := Call start end_ chunk_file in
        let w2 := log (Submit start end_ chunk_file) w1 in
        plan_loop fuel' size chunk_size (end_ + 1) (futures ++ [(future, chunk_file)]) w2
      else Some (futures, w)
  end.

(** Leaving the [with ThreadPoolExecutor(...)] block joins the workers:
    every submitted call has run when line 46 is reached.  The calls write
    to pairwise different files and share nothing else, so their effect is
    that of running them in submission order. *)
Fixpoint executor_exit (srv : server) (futures : list (call * path))
    (fs : gmap path bytes) : list (result (Z * Z) * path) * gmap path bytes :=
  match futures with
  | [] => ([], fs)
  | (c, chunk_file) :: rest =>
      let '(r, fs1) := download_chunk srv (call_start c) (call_end c) (call_file c) fs in
      let '(done, fs2) := executor_exit srv rest fs1 in
      ((r, chunk_file) :: done, fs2)
  end.

(** Lines 50-52: [cancel()] on every future that is not the one at
    position [i].  All futures are finished here, on which [cancel()] changes
    nothing; the call is logged. *)
Fixpoint cancel_others {A : Type} (j : nat) (futures : list A) (i : nat) (w : world) : world :=
  match futures with
  | [] => w
  | _ :: rest =>
      cancel_others (S j) rest i (if decide (j = i) then w else log (Cancel j) w)
  end.

(** The loop of lines 46-55 over the futures from position [i] on; [all] is
    the whole list, which the [except] branch walks.  On a finished future
    [future.result(timeout=TIMEOUT_SECONDS)] answers at once: it returns the
    call's value or raises what the call raised.  The [open] of line 54 is
    outside the [try], so its error cancels nothing. *)
Fixpoint result_loop (all : list (result (Z * Z) * path)) (i : nat)
    (futures : list (result (Z * Z) * path)) (w : world) : result unit * world :=
  match futures with
  | [] => (Ok tt, w)
  | (future, chunk_file) :: rest =>
      match future with
      | Err e => (Err e, cancel_others 0 all i w)
      | Ok _ =>
          match files w !! chunk_file with
          | None => (Err (FileNotFoundError chunk_file), w)
          | Some data => result_loop all (S i) rest (write data w)
          end
      end
  end.

Section Download.

(** Python's [int] on a header value; [None] is its [ValueError]. *)
Variable int : string -> option Z.

(** [None] means the planning loop ran out of [fuel]. *)
Definition download (fuel : nat) (srv : server) (chunk_size max_workers : Z)
    (w : world) : option (result unit * world) :=
  match urlopen_url srv with
  | Err e => Some (Err e, w)
  | Ok content_length =>
      match content_length with
      | None | Some "" => Some (Err CannotDetermineSize, w)
      | Some s =>
          match int s with
          | None => Some (Err (ValueError "invalid literal for int()"), w)
          | Some size =>
              if max_workers <=? 0 then Some (Err (ValueError "max_workers must be greater than 0"), w)
              else
                match plan_loop fuel size chunk_size 0 [] w with
                | None => None
                | Some (futures, w1) =>
                    let '(done, fs) := executor_exit srv futures (files w1) in
                    Some (result_loop done 0 done (set_files fs w1))
                end
          end
      end
  end.

End Download.

(** ** Vocabulary of the statements *)

(** What a submitted call returns or raises; the file system has no say
    in it. *)
Definition fetch (srv : server) (c : call) : result (Z * Z) :=
  (download_chunk srv (call_start c) (call_end c) (call_file c) ∅).1.

(** The body [res.read()] returns for the call's range; nothing when
    there is no response or the read raises. *)
Definition body (srv : server) (c : call) : bytes :=
  match urlopen_range srv (call_start c) (call_end c) with
  | Ok res => match read res with Ok data => data | Err _ => [] end
  | Err _ => []
  end.

(** The call gets as far as line 24 and opens its chunk file: [urlopen]
    returned a response and its status is 206. *)
Definition reaches_open (srv : server) (c : call) : bool :=
  match urlopen_range srv (call_start c) (call_end c) with
  | Ok res => status res =? PARTIAL_CONTENT
  | Err _ => false
  end.

Definition succeeded {A : Type} (r : result A) : Prop :=
  match r with Ok _ => True | Err _ => False end.

(** The probe answers with a non-empty [content-length] that [int] reads
    as [size]. *)
Definition sized (int : string -> option Z) (srv : server) (size : Z) : Prop :=
  exists s, urlopen_url srv = Ok (Some s) /\ s <> "" /\ int s = Some size.

(** The positions [j, j+1, ..., j+n-1] other than [i], as [Cancel] events. *)
Definition cancels (j n i : nat) : list event :=
  Cancel <$> filter (fun k => k <> i) (seq j n).

(** The [(start, end)] pairs of the submitted calls, in submission order. *)
Definition ranges_of (futures : list (call * path)) : list (Z * Z) :=
  (fun p => (call_start p.1, call_end p.1)) <$> futures.

Definition submit_of (p : call * path) : event :=
  Submit (call_start p.1) (call_end p.1) (call_file p.1).

(** What the loop appends when it is entered at [start] with [tmp] the next
    temporary name and leaves normally. *)
Inductive chain (size chunk_size : Z) : Z -> path -> list (call * path) -> Prop :=
| chain_stop start tmp :
    size <= start -> chain size chunk_size start tmp []
| chain_step start tmp rest :
    start < size ->
    chain size chunk_size (Z.min (start + chunk_size - 1) size + 1) (S tmp) rest ->
    chain size chunk_size start tmp
      ((Call start (Z.min (start + chunk_size - 1) size) tmp, tmp) :: rest).

(** The futures as line 46 finds them: each holds what its call returned
    or raised. *)
Definition finished (srv : server) (futures : list (call * path)) :
    list (result (Z * Z) * path) :=
  (fun p => (fetch srv p.1, p.2)) <$> futures.

(** The call at position [k] is the first, in submission order, that
    raised, and [e] is what it raised. *)
Definition first_error (srv : server) (futures : list (call * path))
    (k : nat) (e : exn) : Prop :=
  (exists c f, futures !! k = Some (c, f) /\ fetch srv c = Err e) /\
  forall (j : nat) c f, (j < k)%nat -> futures !! j = Some (c, f) ->
    succeeded (fetch srv c).

(** ** Concrete servers and inputs for the examples *)

(** [int] on a non-empty string of ASCII decimal digits, the form a
    [content-length] value takes.  Python's [int] reads more than that
    (signs, blanks, underscores); the examples use digit strings only. *)
Definition digit (a : ascii) : option Z :=
  let n := Z.of_nat (nat_of_ascii a) in
  if (48 <=? n) && (n <=? 57) then Some (n - 48) else None.

Fixpoint digits (acc : Z) (s : string) : option Z :=
  match s with
  | EmptyString => Some acc
  | String a rest =>
      match digit a with
      | Some d => digits (10 * acc + d) rest
      | None => None
      end
  end.

Definition int_digits (s : string) : option Z :=
  match s with
  | EmptyString => None
  | _ => digits 0 s
  end.

(** Nothing on disk, nothing written, nothing logged. *)
Definition w0 : world := World ∅ 0%nat [] [].

Definition partial_content (data : bytes) : result response :=
  Ok (Response 206 "Partial Content" (Ok data)).

(** Python's [data[s : e + 1]] for [0 <= s]: what a server honouring
    [Range: bytes=s-e] sends, an [e] past the last byte included. *)
Definition slice (data : bytes) (s e : Z) : bytes :=
  take (Z.to_nat (e + 1 - s)) (drop (Z.to_nat s) data).

(** A server that honours every range of the resource [data]. *)
Definition range_server (content_length : string) (data : bytes) : server :=
  Server (Ok (Some content_length)) (fun s e => partial_content (slice data s e)).

Definition hello : bytes := [Byte.x68; Byte.x65; Byte.x6c; Byte.x6c; Byte.x6f].

(** Six bytes in chunks of two: the first range is served, the second
    answered with status 500, which [urlopen] raises as [HTTPError], the
    third with a full-content 200. *)
Definition srv_two_fail : server :=
  Server (Ok (Some "6"))
    (fun s e =>
       if s =? 0 then partial_content [Byte.x61; Byte.x62]
       else if s =? 2 then Ok (Response 500 "Internal Server Error" (Ok []))
       else Ok (Response 200 "OK" (Ok [Byte.x61; Byte.x62; Byte.x63; Byte.x64; Byte.x65; Byte.x66]))).

(** What the planning loop submits for six bytes in chunks of two,
    starting from [w0], and the world it leaves. *)
Definition six_in_twos : list (call * path) :=
  [(Call 0 1 0%nat, 0%nat); (Call 2 3 1%nat, 1%nat); (Call 4 5 2%nat, 2%nat)].

Definition six_in_twos_world : world :=
  World ∅ 3%nat [] [Submit 0 1 0%nat; Submit 2 3 1%nat; Submit 4 5 2%nat].

(** A server that answers a ten-byte range with a 206 carrying one byte. *)
Definition srv_short : server :=
  Server (Ok (Some "10")) (fun s e => partial_content [Byte.x61]).

(** A server whose probe response has no [content-length] header. *)
Definition srv_no_length : server :=
  Server (Ok None) (fun s e => partial_content []).


(** A server that answers every ranged request with 304 and no body. *)
Definition srv_not_modified : server :=
  Server (Ok (Some "10")) (fun s e => Ok (Response 304 "Not Modified" (Ok []))).

(** Six bytes in chunks of two: the first range is served; the body of the
    second breaks off after one byte, so [res.read()] raises; the third is
    served. *)
Definition srv_broken_read : server :=
  Server (Ok (Some "6"))
    (fun s e =>
       if s =? 2 then
         Ok (Response 206 "Partial Content" (Err (IncompleteRead [Byte.x63])))
       else partial_content [Byte.x61; Byte.x62]).

(** [int_digits] with a leading minus sign read as well. *)
Definition int_signed (s : string) : option Z :=
  match s with
  | String "-" rest => Z.opp <$> int_digits rest
  | _ => int_digits s
  end.

(** * Properties *)

(** Closes a goal [sized int srv size] at a concrete server, given the
    header value. *)
Ltac probe_says s :=
  exists s; split; [reflexivity | split; [discriminate | reflexivity]].

(** ** The planning loop *)

Lemma plan_loop_chain fuel size chunk_size : forall start futures w futures' w',
  plan_loop fuel size chunk_size start futures w = Some (futures', w') ->
  exists new,
    futures' = futures ++ new /\
    chain size chunk_size start (tmp_next w) new /\
    w' = World (files w) (tmp_next w + length new)%nat (out w)
               (trace w ++ (submit_of <$> new)).
Proof.
  induction fuel as [|fuel IH]; intros start futures w futures' w' H; [done|].
  simpl in H. destruct (Z.ltb_spec start size) as [Hlt|Hge].
  - apply IH in H as (new & -> & Hch & ->). simpl in *.
    eexists (_ :: new). split; [by rewrite <- app_assoc|]. split.
    + by constructor.
    + f_equal; [simpl; lia|]. by rewrite <- app_assoc.
  - inversion H; subst. exists []. split; [by rewrite app_nil_r|]. split.
    + by constructor.
    + destruct w'; simpl. f_equal; [lia|]. by rewrite app_nil_r.
Qed.

(** With [chunk_size >= 1] the loop ends: [size - start] iterations at most. *)
Lemma plan_loop_terminates fuel size chunk_size : forall start futures w,
  1 <= chunk_size ->
  (Z.to_nat (size - start) < fuel)%nat ->
  is_Some (plan_loop fuel size chunk_size start futures w).
Proof.
  induction fuel as [|fuel IH]; intros start futures w Hcs Hfuel; [lia|].
  simpl. destruct (Z.ltb_spec start size) as [Hlt|Hge]; [|done].
  apply IH; [done|]. lia.
Qed.

(** With [chunk_size < 1] and [start < size] the loop never ends: [start]
    does not grow. *)
Lemma plan_loop_diverges fuel size chunk_size : forall start futures w,
  chunk_size < 1 ->
  start < size ->
  plan_loop fuel size chunk_size start futures w = None.
Proof.
  induction fuel as [|fuel IH]; intros start futures w Hcs Hlt; [done|].
  simpl. destruct (Z.ltb_spec start size) as [_|Hge]; [|lia].
  apply IH; [done|]. lia.
Qed.

(** More fuel does not change a finished run. *)
Lemma plan_loop_fuel_mono fuel size chunk_size : forall fuel' start futures w r,
  plan_loop fuel size chunk_size start futures w = Some r ->
  (fuel <= fuel')%nat ->
  plan_loop fuel' size chunk_size start futures w = Some r.
Proof.
  induction fuel as [|fuel IH]; intros fuel' start futures w r H Hle; [done|].
  destruct fuel' as [|fuel']; [lia|]. simpl in *.
  destruct (start <? size); [|done]. apply IH; [done|lia].
Qed.

(** *** Closed form of the planned ranges for [chunk_size >= 1] *)

Section Chain.

Variables size chunk_size : Z.
Hypothesis chunk_size_pos : 1 <= chunk_size.

Lemma chain_past_size start tmp new :
  chain size chunk_size start tmp new -> size <= start -> new = [].
Proof. destruct 1; [done|lia]. Qed.

Lemma chain_lookup start tmp new :
  chain size chunk_size start tmp new ->
  forall (i : nat) c f, new !! i = Some (c, f) ->
    call_start c = start + Z.of_nat i * chunk_size /\
    call_end c = Z.min (call_start c + chunk_size - 1) size /\
    call_start c < size /\
    call_file c = (tmp + i)%nat /\ f = (tmp + i)%nat.
Proof.
  induction 1 as [|start tmp rest Hlt Hch IH]; intros i c f Hi; [done|].
  destruct i as [|i]; simpl in Hi.
  - inversion Hi; subst; simpl. repeat split; lia.
  - destruct (Z.le_gt_cases (start + chunk_size - 1) size) as [Hfull|Hshort].
    + rewrite Z.min_l in IH by done.
      destruct (IH _ _ _ Hi) as (-> & ? & ? & -> & ->). repeat split; lia.
    + apply chain_past_size in Hch; [|lia]. by subst.
Qed.

Lemma chain_length start tmp new :
  chain size chunk_size start tmp new ->
  length new = Z.to_nat ((size - start + chunk_size - 1) / chunk_size).
Proof.
  induction 1 as [start tmp Hge|start tmp rest Hlt Hch IH]; simpl.
  - assert ((size - start + chunk_size - 1) / chunk_size <= 0); [|lia].
    apply Z.lt_succ_r, Z.div_lt_upper_bound; lia.
  - destruct (Z.le_gt_cases (start + chunk_size - 1) size) as [Hfull|Hshort].
    + rewrite Z.min_l in IH by done. rewrite IH.
      replace (size - start + chunk_size - 1)
        with ((size - (start + chunk_size - 1 + 1) + chunk_size - 1) + 1 * chunk_size) by lia.
      rewrite Z.div_add by lia.
      assert (0 <= (size - (start + chunk_size - 1 + 1) + chunk_size - 1) / chunk_size)
        by (apply Z.div_pos; lia).
      lia.
    + apply chain_past_size in Hch; [|lia]. subst. simpl.
      assert ((size - start + chunk_size - 1) / chunk_size = 1); [|lia].
      symmetry. apply (Z.div_unique_pos _ _ _ (size - start - 1)); lia.
Qed.

End Chain.

(** ** The record [world] *)

Lemma write_nil w : write [] w = w.
Proof. destruct w. unfold write; simpl. by rewrite app_nil_r. Qed.

Lemma write_write a b w : write b (write a w) = write (a ++ b) w.
Proof. unfold write; simpl. by rewrite app_assoc. Qed.

Lemma cancel_others_spec {A : Type} (futures : list A) i : forall j w,
  cancel_others j futures i w =
  World (files w) (tmp_next w) (out w) (trace w ++ cancels j (length futures) i).
Proof.
  unfold cancels.
  induction futures as [|f rest IH]; intros j w; simpl.
  - destruct w; simpl. by rewrite app_nil_r.
  - rewrite IH, filter_cons. destruct (decide (j = i)) as [->|Hne].
    + by rewrite decide_False by naive_solver.
    + rewrite decide_True by done. simpl. by rewrite <- app_assoc.
Qed.

(** ** [download_chunk] *)

Lemma download_chunk_fetch srv c fs :
  (download_chunk srv (call_start c) (call_end c) (call_file c) fs).1 = fetch srv c.
Proof.
  unfold fetch, download_chunk.
  destruct (urlopen_range srv _ _) as [res|e]; [|done].
  by repeat case_match.
Qed.

(** [urlopen] hands back 2xx responses only: line 21 is never reached. *)
Lemma urlopen_range_status srv range_start range_end res :
  urlopen_range srv range_start range_end = Ok res -> 200 <= status res < 300.
Proof.
  unfold urlopen_range. destruct (answer_range srv _ _) as [res'|e]; [|done].
  destruct (Z.leb_spec 200 (status res')) as [Hlo|Hlo];
    destruct (Z.ltb_spec (status res') 300) as [Hhi|Hhi];
    simpl; intros Heq; inversion Heq; subst; lia.
Qed.

(** The file system after a call: its chunk file holds the body when the
    call got to open it (nothing, when the read raised), and is as before
    otherwise. *)
Lemma download_chunk_files srv c fs :
  (download_chunk srv (call_start c) (call_end c) (call_file c) fs).2 =
  if reaches_open srv c then <[call_file c := body srv c]> fs else fs.
Proof.
  unfold reaches_open, body, download_chunk, PARTIAL_CONTENT.
  destruct (urlopen_range srv _ _) as [res|e] eqn:Hres; [|done].
  apply urlopen_range_status in Hres.
  destruct (Z.geb_spec (status res) 400); [lia|].
  destruct (Z.eqb_spec (status res) 206); simpl; [|done].
  by destruct (read res).
Qed.

Lemma succeeded_reaches_open srv c :
  succeeded (fetch srv c) -> reaches_open srv c = true.
Proof.
  unfold fetch, reaches_open, download_chunk, PARTIAL_CONTENT.
  destruct (urlopen_range srv _ _) as [res|e]; [|done].
  destruct (status res >=? 400); [done|].
  by destruct (status res =? 206).
Qed.

(** ** Joining the pool *)

Lemma executor_exit_done srv futures : forall fs,
  (executor_exit srv futures fs).1 = (fun p => (fetch srv p.1, p.2)) <$> futures.
Proof.
  induction futures as [|[c f] rest IH]; intros fs; simpl; [done|].
  destruct (download_chunk _ _ _ _ _) as [r fs1] eqn:Hc.
  specialize (IH fs1). destruct (executor_exit srv rest fs1) as [done' fs2].
  simpl in *. subst done'.
  by rewrite <- (download_chunk_fetch srv c fs), Hc.
Qed.

(** A file that no submitted call names is left alone. *)
Lemma executor_exit_other srv futures p : forall fs,
  p ∉ (call_file <$> futures.*1) ->
  (executor_exit srv futures fs).2 !! p = fs !! p.
Proof.
  induction futures as [|[c f] rest IH]; intros fs Hp; simpl; [done|].
  destruct (download_chunk _ _ _ _ _) as [r fs1] eqn:Hc.
  specialize (IH fs1). destruct (executor_exit srv rest fs1) as [done' fs2].
  simpl in *. apply not_elem_of_cons in Hp as [Hne Hp]. rewrite IH by done.
  pose proof (download_chunk_files srv c fs) as Hfs. rewrite Hc in Hfs.
  simpl in Hfs. subst fs1. destruct (reaches_open srv c); [|done].
  by rewrite lookup_insert_ne.
Qed.

(** No file disappears. *)
Lemma executor_exit_keeps srv futures p : forall fs,
  is_Some (fs !! p) -> is_Some ((executor_exit srv futures fs).2 !! p).
Proof.
  induction futures as [|[c f] rest IH]; intros fs Hp; simpl; [done|].
  destruct (download_chunk _ _ _ _ _) as [r fs1] eqn:Hc.
  specialize (IH fs1). destruct (executor_exit srv rest fs1) as [done' fs2].
  simpl in *. apply IH.
  pose proof (download_chunk_files srv c fs) as Hfs. rewrite Hc in Hfs.
  simpl in Hfs. subst fs1. destruct (reaches_open srv c); [|done].
  destruct (decide (call_file c = p)) as [->|Hne].
  - rewrite lookup_insert_eq. eauto.
  - by rewrite lookup_insert_ne.
Qed.

(** When the calls name pairwise different files, a call that returned has
    left the whole body it received in its file. *)
Lemma executor_exit_staged srv futures : forall fs (j : nat) c f,
  NoDup (call_file <$> futures.*1) ->
  futures !! j = Some (c, f) ->
  succeeded (fetch srv c) ->
  (executor_exit srv futures fs).2 !! call_file c = Some (body srv c).
Proof.
  induction futures as [|[c0 f0] rest IH]; intros fs j c f Hnd Hj Hok; [done|].
  simpl in Hnd. apply NoDup_cons in Hnd as [Hnotin Hnd].
  pose proof (executor_exit_other srv rest (call_file c0)) as Hother.
  simpl.
  destruct (download_chunk _ _ _ _ _) as [r fs1] eqn:Hc.
  specialize (IH fs1). specialize (Hother fs1 Hnotin).
  destruct (executor_exit srv rest fs1) as [done' fs2]. simpl in *.
  destruct j as [|j]; simpl in Hj.
  - inversion Hj; subst. rewrite Hother.
    pose proof (download_chunk_files srv c fs) as Hfs. rewrite Hc in Hfs.
    simpl in Hfs. subst fs1. rewrite succeeded_reaches_open by done.
    by rewrite lookup_insert_eq.
  - by eapply IH.
Qed.

(** ** The result loop *)

(** The bytes the loop finds in the chunk file of a future. *)
Lemma result_loop_prefix all (fs : gmap path bytes) pre : forall i rest w,
  files w = fs ->
  Forall (fun p : result (Z * Z) * path => succeeded p.1 /\ is_Some (fs !! p.2)) pre ->
  result_loop all i (pre ++ rest) w =
  result_loop all (i + length pre) rest
    (write (concat ((fun p : result (Z * Z) * path => default [] (fs !! p.2)) <$> pre)) w).
Proof.
  induction pre as [|[r f] pre IH]; intros i rest w Hfs Hall; simpl.
  - by rewrite write_nil, Nat.add_0_r.
  - apply Forall_cons in Hall as [[Hok [data Hdata]] Hall]. simpl in *.
    destruct r as [v|e]; [|done]. rewrite Hfs, Hdata. simpl.
    rewrite IH by done. rewrite write_write. f_equal. lia.
Qed.

Lemma result_loop_all_ok all (fs : gmap path bytes) futures i w :
  files w = fs ->
  Forall (fun p : result (Z * Z) * path => succeeded p.1 /\ is_Some (fs !! p.2)) futures ->
  result_loop all i futures w =
  (Ok tt, write (concat ((fun p : result (Z * Z) * path => default [] (fs !! p.2)) <$> futures)) w).
Proof.
  intros Hfs Hall.
  rewrite <- (app_nil_r futures) at 1.
  by rewrite (result_loop_prefix all fs futures i [] w Hfs Hall).
Qed.

Lemma result_loop_first_err all (fs : gmap path bytes) pre e f rest i w :
  files w = fs ->
  Forall (fun p : result (Z * Z) * path => succeeded p.1 /\ is_Some (fs !! p.2)) pre ->
  result_loop all i (pre ++ (Err e, f) :: rest) w =
  (Err e, cancel_others 0 all (i + length pre)
            (write (concat ((fun p : result (Z * Z) * path => default [] (fs !! p.2)) <$> pre)) w)).
Proof.
  intros Hfs Hall.
  by rewrite (result_loop_prefix all fs pre i _ w Hfs Hall).
Qed.

(** ** Chunk files of a planned session *)

Lemma chain_file size chunk_size start tmp new :
  chain size chunk_size start tmp new ->
  forall (i : nat) c f, new !! i = Some (c, f) ->
    call_file c = (tmp + i)%nat /\ f = (tmp + i)%nat.
Proof.
  induction 1 as [|start tmp rest Hlt Hch IH]; intros i c f Hi; [done|].
  destruct i as [|i]; simpl in Hi.
  - inversion Hi; subst; simpl. lia.
  - destruct (IH _ _ _ Hi) as [-> ->]. lia.
Qed.

Lemma chain_NoDup size chunk_size start tmp new :
  chain size chunk_size start tmp new -> NoDup (call_file <$> new.*1).
Proof.
  intros Hch. apply NoDup_alt. intros i j p Hi Hj.
  rewrite <- list_fmap_compose in Hi, Hj.
  apply list_lookup_fmap_Some in Hi as ([ci fi] & -> & Hi).
  apply list_lookup_fmap_Some in Hj as ([cj fj] & Heq & Hj).
  destruct (chain_file _ _ _ _ _ Hch _ _ _ Hi) as [Hci _].
  destruct (chain_file _ _ _ _ _ Hch _ _ _ Hj) as [Hcj _].
  simpl in *. lia.
Qed.

(** After the join, the first [k] futures, when their calls all returned,
    each find their chunk file holding the body received. *)
Lemma staged_prefix srv size chunk_size start tmp futures fs0 (k : nat) :
  chain size chunk_size start tmp futures ->
  (forall (j : nat) c f, (j < k)%nat -> futures !! j = Some (c, f) ->
     succeeded (fetch srv c)) ->
  let fs := (executor_exit srv futures fs0).2 in
  Forall (fun p : result (Z * Z) * path => succeeded p.1 /\ is_Some (fs !! p.2))
         (take k (finished srv futures)) /\
  (fun p : result (Z * Z) * path => default [] (fs !! p.2)) <$> take k (finished srv futures)
  = body srv <$> (take k futures).*1.
Proof.
  intros Hch Hok fs.
  assert (Hst : forall (i : nat) c f, (i < k)%nat -> futures !! i = Some (c, f) ->
            succeeded (fetch srv c) /\ fs !! f = Some (body srv c)).
  { intros i c f Hik Hi. split; [by eapply Hok|].
    destruct (chain_file _ _ _ _ _ Hch _ _ _ Hi) as [Hc Hf].
    rewrite Hf, <- Hc. eapply executor_exit_staged; eauto using chain_NoDup. }
  unfold finished. rewrite <- fmap_take. split.
  - apply Forall_fmap, Forall_lookup. intros i [c f] Hi.
    apply lookup_take_Some in Hi as [Hi Hik].
    destruct (Hst _ _ _ Hik Hi) as [? Hfile]. simpl. rewrite Hfile. eauto.
  - rewrite <- !list_fmap_compose. apply list_fmap_ext. intros i [c f] Hi.
    apply lookup_take_Some in Hi as [Hi Hik].
    destruct (Hst _ _ _ Hik Hi) as [? Hfile]. simpl. by rewrite Hfile.
Qed.

(** ** [download], once the probe has given a size *)

Section DownloadFacts.

Variable int : string -> option Z.
Variables (fuel : nat) (srv : server) (chunk_size max_workers size : Z).
Hypothesis probe : sized int srv size.
Hypothesis workers : 0 < max_workers.

Lemma download_sized w :
  download int fuel srv chunk_size max_workers w =
  match plan_loop fuel size chunk_size 0 [] w with
  | None => None
  | Some (futures, w1) =>
      Some (result_loop (finished srv futures) 0 (finished srv futures)
              (set_files (executor_exit srv futures (files w1)).2 w1))
  end.
Proof.
  destruct probe as (s & Hurl & Hne & Hint).
  unfold download. rewrite Hurl. destruct s as [|a s]; [done|].
  rewrite Hint. destruct (Z.leb_spec max_workers 0); [lia|].
  destruct (plan_loop _ _ _ _ _ _) as [[futures w1]|]; [|done].
  pose proof (executor_exit_done srv futures (files w1)) as Hdone.
  destruct (executor_exit srv futures (files w1)) as [done' fs]. simpl in *.
  by subst done'.
Qed.

Variables (w : world) (futures : list (call * path)) (w1 : world).
Hypothesis planned : plan_loop fuel size chunk_size 0 [] w = Some (futures, w1).

Lemma planned_chain : chain size chunk_size 0 (tmp_next w) futures.
Proof. by apply plan_loop_chain in planned as (new & -> & ? & _). Qed.

Lemma planned_world :
  w1 = World (files w) (tmp_next w + length futures)%nat (out w)
             (trace w ++ (submit_of <$> futures)).
Proof. by apply plan_loop_chain in planned as (new & -> & _ & ->). Qed.

(** Every call returned: all bodies are copied to [out], in order. *)
Lemma download_all_ok :
  (forall (j : nat) c f, futures !! j = Some (c, f) -> succeeded (fetch srv c)) ->
  download int fuel srv chunk_size max_workers w =
  Some (Ok tt,
        World (executor_exit srv futures (files w)).2
              (tmp_next w + length futures)%nat
              (out w ++ concat (body srv <$> futures.*1))
              (trace w ++ (submit_of <$> futures))).
Proof.
  intros Hok. rewrite download_sized, planned, planned_world. simpl.
  destruct (staged_prefix srv size chunk_size 0 (tmp_next w) futures (files w)
              (length futures) planned_chain) as [Hall Hbodies]; [by eauto|].
  rewrite firstn_all in Hbodies. unfold finished in Hall, Hbodies.
  rewrite <- fmap_take, firstn_all in Hall, Hbodies.
  rewrite (result_loop_all_ok _ (executor_exit srv futures (files w)).2);
    [|done|exact Hall].
  unfold finished. by rewrite Hbodies.
Qed.

(** The call at position [k] raised and none before it did: the bodies of
    the first [k] chunks are in [out], every other future is cancelled, and
    the error of call [k] comes out. *)
Lemma download_first_err (k : nat) c f e :
  futures !! k = Some (c, f) ->
  fetch srv c = Err e ->
  (forall (j : nat) c' f', (j < k)%nat -> futures !! j = Some (c', f') ->
     succeeded (fetch srv c')) ->
  download int fuel srv chunk_size max_workers w =
  Some (Err e,
        World (executor_exit srv futures (files w)).2
              (tmp_next w + length futures)%nat
              (out w ++ concat (body srv <$> (take k futures).*1))
              (trace w ++ (submit_of <$> futures) ++ cancels 0 (length futures) k)).
Proof.
  intros Hk He Hok. rewrite download_sized, planned, planned_world. simpl.
  destruct (staged_prefix srv size chunk_size 0 (tmp_next w) futures (files w)
              k planned_chain Hok) as [Hall Hbodies].
  assert (Hsplit : finished srv futures =
            take k (finished srv futures) ++ (Err e, f) :: drop (S k) (finished srv futures)).
  { symmetry. apply take_drop_middle. unfold finished.
    rewrite list_lookup_fmap, Hk. simpl. by rewrite He. }
  rewrite Hsplit at 2.
  rewrite (result_loop_first_err _ (executor_exit srv futures (files w)).2);
    [|done|exact Hall].
  rewrite cancel_others_spec, Hbodies. simpl.
  assert (Hlen : length (take k (finished srv futures)) = k).
  { apply length_take_le. unfold finished. rewrite length_fmap.
    apply lookup_lt_Some in Hk. lia. }
  rewrite Hlen. unfold finished. by rewrite length_fmap, app_assoc.
Qed.

End DownloadFacts.

(** ** The ranges of a finished plan *)

Section Planned.

Variables (fuel : nat) (size chunk_size : Z) (w w1 : world).
Variable futures : list (call * path).
Hypothesis chunk_size_pos : 1 <= chunk_size.
Hypothesis planned : plan_loop fuel size chunk_size 0 [] w = Some (futures, w1).

Lemma planned_range (i : nat) s e :
  ranges_of futures !! i = Some (s, e) ->
  s = Z.of_nat i * chunk_size /\ e = Z.min (s + chunk_size - 1) size /\
  s < size /\ s <= e.
Proof.
  intros Hi. unfold ranges_of in Hi.
  apply list_lookup_fmap_Some in Hi as ([c f] & Heq & Hi).
  simpl in Heq. inversion Heq; subst; clear Heq.
  destruct (chain_lookup size chunk_size chunk_size_pos 0 (tmp_next w) futures
              (planned_chain fuel chunk_size size w futures w1 planned) i c f Hi)
    as (Hs & He & Hlt & _).
  rewrite Z.add_0_l in Hs.
  split; [done|]. split; [done|]. split; [done|]. rewrite He. lia.
Qed.

Lemma planned_count :
  length (ranges_of futures) = Z.to_nat ((size + chunk_size - 1) / chunk_size).
Proof.
  unfold ranges_of. rewrite length_fmap.
  rewrite (chain_length size chunk_size chunk_size_pos 0 (tmp_next w) futures
             (planned_chain fuel chunk_size size w futures w1 planned)).
  do 2 f_equal. lia.
Qed.

(** Contiguous: a range starts right after the one before it ends. *)
Lemma planned_contiguous (i : nat) s e s' e' :
  ranges_of futures !! i = Some (s, e) ->
  ranges_of futures !! S i = Some (s', e') ->
  s' = e + 1.
Proof.
  intros Hi Hi'. apply planned_range in Hi as (-> & -> & _ & _).
  apply planned_range in Hi' as (-> & _ & Hlt & _). lia.
Qed.

(** Ascending and non-overlapping. *)
Lemma planned_disjoint (i j : nat) s e s' e' :
  (i < j)%nat ->
  ranges_of futures !! i = Some (s, e) ->
  ranges_of futures !! j = Some (s', e') ->
  e < s'.
Proof.
  intros Hij Hi Hj. apply planned_range in Hi as (-> & -> & _ & _).
  apply planned_range in Hj as (-> & _ & _ & _). nia.
Qed.

(** Every byte of the resource lies in a planned range. *)
Lemma planned_cover x :
  0 <= x < size ->
  exists (i : nat) s e, ranges_of futures !! i = Some (s, e) /\ s <= x <= e.
Proof.
  intros Hx.
  assert (Hq : 0 <= x / chunk_size) by (apply Z.div_pos; lia).
  assert (Hlen : (Z.to_nat (x / chunk_size) < length (ranges_of futures))%nat).
  { rewrite planned_count.
    replace (size + chunk_size - 1) with (size - 1 + 1 * chunk_size) by lia.
    rewrite Z.div_add by lia.
    assert (x / chunk_size <= (size - 1) / chunk_size)
      by (apply Z.div_le_mono; lia).
    lia. }
  apply lookup_lt_is_Some in Hlen as [[s e] Hi].
  exists (Z.to_nat (x / chunk_size)), s, e. split; [done|].
  apply planned_range in Hi as (-> & -> & _ & _).
  rewrite Z2Nat.id by done.
  pose proof (Z.mul_div_le x chunk_size ltac:(lia)).
  pose proof (Z.mul_succ_div_gt x chunk_size ltac:(lia)). lia.
Qed.

(** The last range ends at [size - 1] when [chunk_size] divides [size],
    and at [size] otherwise. *)
Lemma planned_last s e :
  last (ranges_of futures) = Some (s, e) ->
  e = if decide (size mod chunk_size = 0) then size - 1 else size.
Proof.
  intros Hlast. rewrite last_lookup in Hlast.
  pose proof Hlast as Hlt. apply lookup_lt_Some in Hlt.
  pose proof planned_count as Hn.
  apply planned_range in Hlast as (-> & -> & Hs & _).
  assert (Hsize : 0 < size) by nia.
  pose proof (Z.div_mod size chunk_size ltac:(lia)) as Hdm.
  pose proof (Z.mod_pos_bound size chunk_size ltac:(lia)) as Hmod.
  assert (Hq : 0 <= size / chunk_size) by (apply Z.div_pos; lia).
  destruct (decide (size mod chunk_size = 0)) as [Hz|Hnz].
  - assert (Hc : (size + chunk_size - 1) / chunk_size = size / chunk_size).
    { symmetry. apply (Z.div_unique_pos _ _ _ (chunk_size - 1)); lia. }
    rewrite Hc in Hn. nia.
  - assert (Hc : (size + chunk_size - 1) / chunk_size = size / chunk_size + 1).
    { symmetry. apply (Z.div_unique_pos _ _ _ (size mod chunk_size - 1)); lia. }
    rewrite Hc in Hn. nia.
Qed.

End Planned.

(** ** Failures among the submitted calls *)


(** When some call raised, there is a first one that did. *)
Lemma first_error_exists srv futures : forall (j : nat) c f,
  futures !! j = Some (c, f) ->
  ~ succeeded (fetch srv c) ->
  exists (k : nat) e, (k <= j)%nat /\ first_error srv futures k e.
Proof.
  induction futures as [|[c0 f0] rest IH]; intros j c f Hj Hfail; [done|].
  destruct (fetch srv c0) as [v|e0] eqn:H0.
  - destruct j as [|j]; simpl in Hj.
    + inversion Hj; subst. rewrite H0 in Hfail. by destruct Hfail.
    + destruct (IH j c f Hj Hfail) as (k & e & Hle & (c' & f' & Hk & He) & Hbefore).
      exists (S k), e. split; [lia|]. split; [by exists c', f'|].
      intros [|i] ci fi Hi Hlook; simpl in Hlook.
      * inversion Hlook; subst. by rewrite H0.
      * eapply Hbefore; [|done]. lia.
  - exists 0%nat, e0. split; [lia|]. split; [by exists c0, f0|].
    intros i ci fi Hi. lia.
Qed.

(** The first call that raised is the only candidate: two positions
    cannot both be first. *)
Lemma first_error_unique srv futures k e k' e' :
  first_error srv futures k e -> first_error srv futures k' e' ->
  k = k' /\ e = e'.
Proof.
  intros [(c & f & Hk & He) Hbefore] [(c' & f' & Hk' & He') Hbefore'].
  assert (k = k') as <-.
  { destruct (Nat.lt_trichotomy k k') as [Hlt|[Heq|Hgt]]; [|done|].
    - pose proof (Hbefore' _ _ _ Hlt Hk) as Hs. rewrite He in Hs. by destruct Hs.
    - pose proof (Hbefore _ _ _ Hgt Hk') as Hs. rewrite He' in Hs. by destruct Hs. }
  split; [done|]. congruence.
Qed.

(** A plan that submitted a call had [chunk_size >= 1]. *)
Lemma planned_chunk_size_pos fuel size chunk_size w futures w1 :
  plan_loop fuel size chunk_size 0 [] w = Some (futures, w1) ->
  futures <> [] ->
  1 <= chunk_size.
Proof.
  intros Hplan Hne.
  destruct (Z.le_gt_cases 1 chunk_size) as [|Hcs]; [done|].
  destruct (Z.lt_ge_cases 0 size) as [Hsize|Hsize].
  - rewrite plan_loop_diverges in Hplan by lia. done.
  - apply plan_loop_chain in Hplan as (new & -> & Hch & _).
    apply chain_past_size in Hch; [|lia]. by subst.
Qed.

(** Submission order is the order of the range starts. *)
Lemma planned_starts_ascend fuel size chunk_size w futures w1 (i j : nat) ci fi cj fj :
  plan_loop fuel size chunk_size 0 [] w = Some (futures, w1) ->
  futures !! i = Some (ci, fi) ->
  futures !! j = Some (cj, fj) ->
  (i < j)%nat ->
  call_start ci < call_start cj.
Proof.
  intros Hplan Hi Hj Hij.
  assert (Hcs : 1 <= chunk_size).
  { eapply planned_chunk_size_pos; [done|]. intros ->. done. }
  pose proof (planned_chain _ _ _ _ _ _ Hplan) as Hch.
  destruct (chain_lookup _ _ Hcs _ _ _ Hch _ _ _ Hi) as (-> & _).
  destruct (chain_lookup _ _ Hcs _ _ _ Hch _ _ _ Hj) as (-> & _).
  nia.
Qed.

(** The loop of lines 46-55 writes no file and removes none. *)
Lemma result_loop_files all futures : forall i w,
  files (result_loop all i futures w).2 = files w.
Proof.
  induction futures as [|[r f] rest IH]; intros i w; simpl; [done|].
  destruct r as [v|e].
  - destruct (files w !! f) as [data|]; [|done]. by rewrite IH.
  - simpl. by rewrite cancel_others_spec.
Qed.

(** ** Leaving the planning loop, or not *)

(** With [chunk_size >= 1] [download] returns or raises, given fuel for
    [size] iterations. *)
Lemma download_terminates int fuel srv chunk_size max_workers size w :
  sized int srv size ->
  1 <= chunk_size ->
  (Z.to_nat size < fuel)%nat ->
  is_Some (download int fuel srv chunk_size max_workers w).
Proof.
  intros (s & Hurl & Hne & Hint) Hcs Hfuel.
  unfold download. rewrite Hurl. destruct s as [|a s]; [done|]. rewrite Hint.
  destruct (max_workers <=? 0); [done|].
  destruct (plan_loop_terminates fuel size chunk_size 0 [] w Hcs) as [[futures w1] Hplan];
    [by rewrite Z.sub_0_r|].
  rewrite Hplan. by destruct (executor_exit srv futures (files w1)).
Qed.

(** With [chunk_size < 1] and a resource that is not empty [download]
    never leaves the planning loop. *)
Lemma download_diverges int fuel srv chunk_size max_workers size w :
  sized int srv size ->
  0 < max_workers ->
  chunk_size < 1 ->
  0 < size ->
  download int fuel srv chunk_size max_workers w = None.
Proof.
  intros Hsized Hmw Hcs Hsize.
  rewrite (download_sized int fuel srv chunk_size max_workers size Hsized Hmw).
  by rewrite plan_loop_diverges.
Qed.

(** ** Reassembly against a server that honours ranges *)

Lemma fetch_range_server content_length data c :
  succeeded (fetch (range_server content_length data) c).
Proof. exact I. Qed.

(** The bodies of the planned ranges, in order, are the resource from
    [start] on.  The last range may name the byte at [size], which does not
    exist; the slice stops at the last byte. *)
Lemma chain_bodies content_length data chunk_size start tmp new :
  1 <= chunk_size ->
  chain (Z.of_nat (length data)) chunk_size start tmp new ->
  0 <= start ->
  concat (body (range_server content_length data) <$> new.*1) =
  drop (Z.to_nat start) data.
Proof.
  intros Hcs. induction 1 as [start tmp Hge|start tmp rest Hlt Hch IH]; intros Hstart.
  - simpl. rewrite drop_ge; [done|lia].
  - rewrite !fmap_cons. simpl. rewrite IH by lia.
    unfold body, slice; simpl.
    set (e := Z.min (start + chunk_size - 1) (Z.of_nat (length data))).
    replace (Z.to_nat (e + 1)) with (Z.to_nat start + Z.to_nat (e + 1 - start))%nat by lia.
    rewrite <- drop_drop. apply take_drop.
Qed.

(** X9.  Against such a server [download] returns with the whole resource
    appended to [out], for every [chunk_size >= 1]. *)
Theorem download_reassembles int fuel content_length data chunk_size max_workers w :
  sized int (range_server content_length data) (Z.of_nat (length data)) ->
  1 <= chunk_size ->
  0 < max_workers ->
  (length data < fuel)%nat ->
  exists w',
    download int fuel (range_server content_length data) chunk_size max_workers w
      = Some (Ok tt, w') /\
    out w' = out w ++ data.
Proof.
  intros Hsized Hcs Hmw Hfuel.
  destruct (plan_loop_terminates fuel (Z.of_nat (length data)) chunk_size 0 [] w Hcs)
    as [[futures w1] Hplan]; [lia|].
  eexists. split.
  - eapply download_all_ok; [done..|]. intros j c f _. apply fetch_range_server.
  - simpl. f_equal.
    by rewrite (chain_bodies content_length data chunk_size 0 (tmp_next w) futures Hcs
                  (planned_chain _ _ _ _ _ _ Hplan)).
Qed.

(** * The claims *)

(** ** Chunk planning *)

(** C1.  For a resource of 2,500,000 bytes and chunks of 1,048,576 the loop
    of lines 39-45 plans [0,1048575], [1048576,2097151] and
    [2097152,2500000]: line 41 clamps the last [end] to [size], one past the
    last byte [size - 1], so the union of the ranges is [0, 2500000] and not
    [0, 2499999]. *)
Theorem C1_planned_ranges_2500000 : forall w,
  (fun r : list (call * path) * world => ranges_of r.1)
    <$> plan_loop 4 2500000 1048576 0 [] w
  = Some [(0, 1048575); (1048576, 2097151); (2097152, 2500000)].
Proof. intros w. reflexivity. Qed.

(** C4.  [download] called with [chunk_size = 0] on a five-byte resource
    raises nothing: whatever the fuel, it is still in the loop of lines
    40-45, where [end = -1] and [start] stays [0]. *)
Theorem C4_chunk_size_zero_never_returns : forall fuel,
  download int_digits fuel (range_server "5" hello) 0 20 w0 = None.
Proof.
  intros fuel. apply (download_diverges _ _ _ _ _ 5); [|lia..].
  probe_says "5"%string.
Qed.

(** ** [download_chunk] *)

(** An answer outside 200-299 never gets to line 20: [urlopen] raises. *)
Lemma download_chunk_refused srv range_start range_end outfile fs res :
  answer_range srv range_start range_end = Ok res ->
  ~ (200 <= status res < 300) ->
  download_chunk srv range_start range_end outfile fs =
  (Err (HTTPError (status res) (reason res)), fs).
Proof.
  intros Hres Hout. unfold download_chunk, urlopen_range. rewrite Hres.
  destruct (Z.leb_spec 200 (status res)); destruct (Z.ltb_spec (status res) 300);
    simpl; try done; lia.
Qed.

(** A 2xx answer is returned by [urlopen] and judged by line 22. *)
Lemma download_chunk_returned srv range_start range_end outfile fs res :
  answer_range srv range_start range_end = Ok res ->
  200 <= status res < 300 ->
  download_chunk srv range_start range_end outfile fs =
  if status res =? 206 then
    match read res with
    | Err e => (Err e, <[outfile := []]> fs)
    | Ok data => (Ok (range_start, range_end), <[outfile := data]> fs)
    end
  else (Err PartialContentNotSupported, fs).
Proof.
  intros Hres Hin. unfold download_chunk, urlopen_range, PARTIAL_CONTENT. rewrite Hres.
  destruct (Z.leb_spec 200 (status res)); [|lia].
  destruct (Z.ltb_spec (status res) 300); [|lia]. simpl.
  destruct (Z.geb_spec (status res) 400); [lia|].
  by destruct (status res =? 206).
Qed.

(** C5, as the code has it.  For every final answer to the ranged request:
    a status of 400 or more fails with [HTTPError], which carries the status
    and the reason, and so does every other status outside 200-299;
    [urlopen] raises it, before line 20.  A 2xx status other than 206 raises
    "partial content not supported".  The call returns only when the status
    is 206, and then exactly when [res.read()] returns. *)
Theorem C5_status_checks srv range_start range_end outfile fs res :
  answer_range srv range_start range_end = Ok res ->
  (400 <= status res ->
     download_chunk srv range_start range_end outfile fs =
     (Err (HTTPError (status res) (reason res)), fs)) /\
  (status res < 200 \/ 300 <= status res < 400 ->
     download_chunk srv range_start range_end outfile fs =
     (Err (HTTPError (status res) (reason res)), fs)) /\
  (200 <= status res < 300 -> status res <> 206 ->
     download_chunk srv range_start range_end outfile fs =
     (Err PartialContentNotSupported, fs)) /\
  (succeeded (download_chunk srv range_start range_end outfile fs).1 <->
     status res = 206 /\ succeeded (read res)).
Proof.
  intros Hres.
  destruct (decide (200 <= status res < 300)) as [Hin|Hout].
  - rewrite (download_chunk_returned _ _ _ _ _ _ Hres Hin).
    destruct (Z.eqb_spec (status res) 206) as [Heq|Hne].
    + destruct (read res) as [data|e]; simpl;
        (split; [lia|]); (split; [lia|]); (split; [done|]); tauto.
    + simpl. (split; [lia|]); (split; [lia|]); (split; [done|]); tauto.
  - rewrite (download_chunk_refused _ _ _ _ _ _ Hres Hout). simpl.
    (split; [done|]); (split; [done|]); (split; [lia|]). split; [tauto|lia].
Qed.

Lemma C5_witness :
  (400 <= 500 ->
     download_chunk srv_two_fail 2 3 1%nat ∅ =
     (Err (HTTPError 500 "Internal Server Error"), ∅)) /\
  (500 < 200 \/ 300 <= 500 < 400 ->
     download_chunk srv_two_fail 2 3 1%nat ∅ =
     (Err (HTTPError 500 "Internal Server Error"), ∅)) /\
  (200 <= 500 < 300 -> 500 <> 206 ->
     download_chunk srv_two_fail 2 3 1%nat ∅ = (Err PartialContentNotSupported, ∅)) /\
  (succeeded (download_chunk srv_two_fail 2 3 1%nat ∅).1 <->
     500 = 206 /\ succeeded (Ok [] : result bytes)).
Proof.
  exact (C5_status_checks srv_two_fail 2 3 1%nat ∅
           (Response 500 "Internal Server Error" (Ok [])) eq_refl).
Defined.

(** C5, as the claim has it, fails for a status between 300 and 399: a
    ranged request answered 304 does not end in "partial content not
    supported" but in the [HTTPError] that [urlopen] raises. *)
Lemma C5_counterexample :
  download_chunk srv_not_modified 0 9 7%nat ∅ =
    (Err (HTTPError 304 "Not Modified"), ∅) /\
  (download_chunk srv_not_modified 0 9 7%nat ∅).1 <> Err PartialContentNotSupported.
Proof. split; [reflexivity|]. discriminate. Qed.

(** C6, as the code has it.  On a 206 response whose body [res.read()]
    returns, the whole body is written to [outfile] before [download_chunk]
    returns its range; the other files are untouched.  The number of bytes
    read plays no part: there is no check against
    [range_end - range_start + 1]. *)
Theorem C6_body_persisted srv range_start range_end outfile fs res data :
  urlopen_range srv range_start range_end = Ok res ->
  status res = 206 ->
  read res = Ok data ->
  exists fs',
    download_chunk srv range_start range_end outfile fs =
      (Ok (range_start, range_end), fs') /\
    fs' !! outfile = Some data /\
    forall p, p <> outfile -> fs' !! p = fs !! p.
Proof.
  intros Hres Hst Hread. unfold download_chunk, PARTIAL_CONTENT.
  rewrite Hres, Hst, Hread. simpl. eexists. split; [done|]. split.
  - by rewrite lookup_insert_eq.
  - intros p Hp. by rewrite lookup_insert_ne.
Qed.

Lemma C6_witness :
  exists fs',
    download_chunk srv_short 0 9 7%nat ∅ = (Ok (0, 9), fs') /\
    fs' !! 7%nat = Some [Byte.x61] /\
    forall p, p <> 7%nat -> fs' !! p = (∅ : gmap path bytes) !! p.
Proof.
  exact (C6_body_persisted srv_short 0 9 7%nat ∅
           (Response 206 "Partial Content" (Ok [Byte.x61])) [Byte.x61]
           eq_refl eq_refl eq_refl).
Defined.

(** C6, as the claim has it, fails: asked for the ten bytes [0, 9] and
    given a 206 with a one-byte body, [download_chunk] stages that byte and
    returns [(0, 9)]. *)
Lemma C6_counterexample :
  download_chunk srv_short 0 9 7%nat ∅ = (Ok (0, 9), {[ 7%nat := [Byte.x61] ]}) /\
  Z.of_nat (length [Byte.x61]) <> 9 - 0 + 1.
Proof. split; [reflexivity|]. simpl. lia. Qed.

(** ** The size probe *)

(** C7.  When the probe response has no [content-length] header, or an
    empty one, [download] raises "cannot determine total download size" and
    leaves the world as it found it: no call was submitted, no file was
    written, nothing went to [out]. *)
Theorem C7_size_unknown int fuel srv chunk_size max_workers w :
  urlopen_url srv = Ok None \/ urlopen_url srv = Ok (Some ""%string) ->
  download int fuel srv chunk_size max_workers w = Some (Err CannotDetermineSize, w).
Proof. intros [H|H]; unfold download; by rewrite H. Qed.

Lemma C7_witness :
  download int_digits 3 srv_no_length 2 20 w0 = Some (Err CannotDetermineSize, w0).
Proof.
  apply (C7_size_unknown int_digits 3 srv_no_length 2 20 w0).
  left. reflexivity.
Defined.

(** ** The empty resource *)

(** C9.  When the probe gives size 0, [download] submits no call, writes
    nothing and returns: the world is as it was.  This holds for every
    [chunk_size] and every [max_workers >= 1]; one unit of fuel is enough. *)
Theorem C9_empty_resource int fuel srv chunk_size max_workers w :
  sized int srv 0 ->
  1 <= max_workers ->
  (0 < fuel)%nat ->
  download int fuel srv chunk_size max_workers w = Some (Ok tt, w).
Proof.
  intros Hsized Hmw Hfuel.
  rewrite (download_sized int fuel srv chunk_size max_workers 0 Hsized); [|lia].
  destruct fuel as [|fuel]; [lia|]. simpl. by destruct w.
Qed.

Lemma C9_witness :
  download int_digits 1 (range_server "0" []) 1048576 20 w0 = Some (Ok tt, w0).
Proof.
  apply (C9_empty_resource int_digits 1 (range_server "0" []) 1048576 20 w0).
  - probe_says "0"%string.
  - lia.
  - lia.
Defined.

(** ** Failed sessions *)

(** C10.  When the call at position [k] is the first that raised, [download]
    raises that call's error with the bodies of the [k] chunks before it
    already written to [out]; every other call that raised sits later in
    submission order and has a larger range start. *)
Theorem C10_first_failure_reported int fuel srv chunk_size max_workers size
    w futures w1 (k : nat) c f e :
  sized int srv size ->
  0 < max_workers ->
  plan_loop fuel size chunk_size 0 [] w = Some (futures, w1) ->
  futures !! k = Some (c, f) ->
  fetch srv c = Err e ->
  (forall (j : nat) c' f', (j < k)%nat -> futures !! j = Some (c', f') ->
     succeeded (fetch srv c')) ->
  exists w',
    download int fuel srv chunk_size max_workers w = Some (Err e, w') /\
    out w' = out w ++ concat (body srv <$> (take k futures).*1) /\
    forall (j : nat) c' f', j <> k -> futures !! j = Some (c', f') ->
      ~ succeeded (fetch srv c') ->
      (k < j)%nat /\ call_start c < call_start c'.
Proof.
  intros Hsized Hmw Hplan Hk He Hbefore.
  eexists. split; [|split].
  - by eapply download_first_err.
  - done.
  - intros j c' f' Hne Hj Hfail.
    assert (Hkj : (k < j)%nat).
    { destruct (Nat.lt_trichotomy k j) as [|[|Hlt]]; [done|congruence|].
      destruct Hfail. by eapply Hbefore. }
    split; [done|]. by eapply planned_starts_ascend.
Qed.

Lemma C10_witness :
  exists w',
    download int_digits 4 srv_two_fail 2 20 w0 =
      Some (Err (HTTPError 500 "Internal Server Error"), w') /\
    out w' = out w0 ++ concat (body srv_two_fail <$>
               (take 1 six_in_twos).*1) /\
    forall (j : nat) c' f', j <> 1%nat ->
      six_in_twos !! j = Some (c', f') ->
      ~ succeeded (fetch srv_two_fail c') ->
      (1 < j)%nat /\ call_start (Call 2 3 1%nat) < call_start c'.
Proof.
  apply (C10_first_failure_reported int_digits 4 srv_two_fail 2 20 6 w0
           six_in_twos
           six_in_twos_world
           1%nat (Call 2 3 1%nat) 1%nat).
  - probe_says "6"%string.
  - lia.
  - reflexivity.
  - reflexivity.
  - reflexivity.
  - intros j c' f' Hj Hlook. destruct j as [|j]; [|lia].
    inversion Hlook. exact I.
Defined.

Lemma concat_nil_Forall (l : list bytes) :
  concat l = [] <-> Forall (fun b => b = []) l.
Proof.
  induction l as [|b l IH]; simpl; [by split|]. split.
  - intros H. apply app_eq_nil in H as [-> H]. constructor; [done|]. by apply IH.
  - intros H. apply Forall_cons in H as [-> H]. simpl. by apply IH.
Qed.

(** C2, as the code has it.  When some call raised, [download] raises the
    error of the first call that did, and [out] has by then received the
    bodies of exactly the chunks before that call, in range order, and
    nothing of the failing chunk or of a later one.  So nothing has been
    written exactly when every chunk before the failing one has an empty
    body, as is the case when no chunk precedes it. *)
Theorem C2_failed_session_output int fuel srv chunk_size max_workers size
    w futures w1 (j : nat) c f :
  sized int srv size ->
  0 < max_workers ->
  plan_loop fuel size chunk_size 0 [] w = Some (futures, w1) ->
  futures !! j = Some (c, f) ->
  ~ succeeded (fetch srv c) ->
  exists (k : nat) e w',
    (k <= j)%nat /\
    first_error srv futures k e /\
    download int fuel srv chunk_size max_workers w = Some (Err e, w') /\
    out w' = out w ++ concat (body srv <$> (take k futures).*1) /\
    (out w' = out w <->
       Forall (fun b => b = []) (body srv <$> (take k futures).*1)) /\
    (k = 0%nat -> out w' = out w).
Proof.
  intros Hsized Hmw Hplan Hj Hfail.
  destruct (first_error_exists srv futures j c f Hj Hfail)
    as (k & e & Hle & Hfirst).
  pose proof Hfirst as [(ck & fk & Hk & He) Hbefore].
  exists k, e. eexists. split; [done|]. split; [done|]. split; [|split; [|split]].
  - by eapply download_first_err.
  - done.
  - simpl. rewrite <- concat_nil_Forall. split.
    + intros H. apply (app_inv_head (out w)). by rewrite app_nil_r.
    + intros ->. by rewrite app_nil_r.
  - intros ->. simpl. by rewrite app_nil_r.
Qed.

Lemma C2_witness :
  exists (k : nat) e w',
    (k <= 2)%nat /\
    first_error srv_two_fail
      six_in_twos k e /\
    download int_digits 4 srv_two_fail 2 20 w0 = Some (Err e, w') /\
    out w' = out w0 ++ concat (body srv_two_fail <$>
               (take k six_in_twos).*1) /\
    (out w' = out w0 <->
       Forall (fun b => b = []) (body srv_two_fail <$> (take k six_in_twos).*1)) /\
    (k = 0%nat -> out w' = out w0).
Proof.
  apply (C2_failed_session_output int_digits 4 srv_two_fail 2 20 6 w0
           six_in_twos
           six_in_twos_world
           2%nat (Call 4 5 2%nat) 2%nat).
  - probe_says "6"%string.
  - lia.
  - reflexivity.
  - reflexivity.
  - vm_compute. intros H; exact H.
Defined.

(** C2, as the claim has it, fails: with six bytes in chunks of two, the
    second range answered 500, [download] raises the [HTTPError] of the
    second call with the first chunk's two bytes already in [out]. *)
Lemma C2_counterexample :
  exists w',
    download int_digits 4 srv_two_fail 2 20 w0 =
      Some (Err (HTTPError 500 "Internal Server Error"), w') /\
    out w' = [Byte.x61; Byte.x62] /\
    out w' <> out w0.
Proof.
  exists (World {[ 0%nat := [Byte.x61; Byte.x62] ]} 3%nat
                [Byte.x61; Byte.x62]
                [Submit 0 1 0%nat; Submit 2 3 1%nat; Submit 4 5 2%nat; Cancel 0; Cancel 2]).
  split; [reflexivity|]. split; [reflexivity|]. discriminate.
Qed.



(** ** Chunk files *)

(** C8, as the code has it.  [download] removes no file.  However the
    session ends, every file that existed before it is still there, and the
    chunk file of every call that returned still holds the body that call
    received. *)
Theorem C8_staging_files_remain int fuel srv chunk_size max_workers size
    w futures w1 :
  sized int srv size ->
  0 < max_workers ->
  plan_loop fuel size chunk_size 0 [] w = Some (futures, w1) ->
  exists r w',
    download int fuel srv chunk_size max_workers w = Some (r, w') /\
    (forall p, is_Some (files w !! p) -> is_Some (files w' !! p)) /\
    (forall (j : nat) c f, futures !! j = Some (c, f) ->
       succeeded (fetch srv c) -> files w' !! f = Some (body srv c)).
Proof.
  intros Hsized Hmw Hplan.
  rewrite (download_sized int fuel srv chunk_size max_workers size Hsized Hmw), Hplan.
  rewrite (planned_world _ _ _ _ _ _ Hplan). simpl.
  pose proof (planned_chain _ _ _ _ _ _ Hplan) as Hch.
  match goal with |- context [Some ?x] => set (rw := x) end.
  assert (Hfiles : files rw.2 = (executor_exit srv futures (files w)).2).
  { unfold rw. by rewrite result_loop_files. }
  exists rw.1, rw.2. split; [by destruct rw|]. rewrite Hfiles. split.
  - intros p Hp. by apply executor_exit_keeps.
  - intros j c f Hj Hok.
    destruct (chain_file _ _ _ _ _ Hch _ _ _ Hj) as [Hc Hf].
    rewrite Hf, <- Hc. eapply executor_exit_staged; eauto using chain_NoDup.
Qed.

Lemma C8_witness :
  exists r w',
    download int_digits 4 srv_two_fail 2 20 w0 = Some (r, w') /\
    (forall p, is_Some (files w0 !! p) -> is_Some (files w' !! p)) /\
    (forall (j : nat) c f, six_in_twos !! j = Some (c, f) ->
       succeeded (fetch srv_two_fail c) -> files w' !! f = Some (body srv_two_fail c)).
Proof.
  apply (C8_staging_files_remain int_digits 4 srv_two_fail 2 20 6 w0
           six_in_twos six_in_twos_world).
  - probe_says "6"%string.
  - lia.
  - reflexivity.
Defined.

(** C8, as the claim has it, fails on both paths.  A five-byte resource
    fetched in one chunk: [download] returns and the chunk file is still on
    disk.  Six bytes in chunks of two with the second range refused:
    [download] raises and the first chunk's file is still on disk. *)
Lemma C8_counterexample :
  (files w0 !! 0%nat = None /\
   download int_digits 2 (range_server "5" hello) 1048576 20 w0 =
     Some (Ok tt, World {[ 0%nat := hello ]} 1%nat hello [Submit 0 5 0%nat])) /\
  (exists e w',
     download int_digits 4 srv_two_fail 2 20 w0 = Some (Err e, w') /\
     files w' !! 0%nat = Some [Byte.x61; Byte.x62]).
Proof.
  split; [split; reflexivity|].
  eexists _, _. split; reflexivity.
Qed.

(** * Further properties *)

(** ** The planned ranges *)

(** X1.  When the planning loop has ended, the range at position [i] starts
    at [i * chunk_size] and ends at [min(start + chunk_size - 1, size)]; it
    starts inside the resource and asks for at least one and at most
    [chunk_size] bytes. *)
Theorem planned_range_closed_form fuel size chunk_size w futures w1 (i : nat) s e :
  plan_loop fuel size chunk_size 0 [] w = Some (futures, w1) ->
  ranges_of futures !! i = Some (s, e) ->
  s = Z.of_nat i * chunk_size /\
  e = Z.min (s + chunk_size - 1) size /\
  0 <= s < size /\
  1 <= e - s + 1 <= chunk_size.
Proof.
  intros Hplan Hi.
  assert (Hcs : 1 <= chunk_size).
  { eapply planned_chunk_size_pos; [done|]. intros ->. done. }
  destruct (planned_range _ _ _ _ _ _ Hcs Hplan _ _ _ Hi) as (Hs & He & Hlt & Hle).
  split; [done|]. split; [done|]. split; [nia|]. lia.
Qed.

Lemma planned_range_closed_form_witness :
  4 = Z.of_nat 2 * 2 /\
  5 = Z.min (4 + 2 - 1) 6 /\
  0 <= 4 < 6 /\
  1 <= 5 - 4 + 1 <= 2.
Proof.
  apply (planned_range_closed_form 4 6 2 w0 six_in_twos six_in_twos_world 2 4 5).
  - reflexivity.
  - reflexivity.
Defined.

(** X2.  For [chunk_size >= 1] the loop submits [ceil(size / chunk_size)]
    calls.  It logs one [Submit] per call, in range order, takes one
    temporary name per call, hands each call the file name that [futures]
    records beside it, and touches neither the files nor [out]. *)
Theorem planned_submissions fuel size chunk_size w futures w1 :
  1 <= chunk_size ->
  plan_loop fuel size chunk_size 0 [] w = Some (futures, w1) ->
  length futures = Z.to_nat ((size + chunk_size - 1) / chunk_size) /\
  Forall (fun p : call * path => call_file p.1 = p.2) futures /\
  w1 = World (files w) (tmp_next w + length futures)%nat (out w)
             (trace w ++ (submit_of <$> futures)).
Proof.
  intros Hcs Hplan. split; [|split].
  - rewrite <- (planned_count _ _ _ _ _ _ Hcs Hplan). unfold ranges_of.
    by rewrite length_fmap.
  - apply Forall_lookup. intros i [c f] Hi.
    destruct (chain_file _ _ _ _ _ (planned_chain _ _ _ _ _ _ Hplan) _ _ _ Hi)
      as [Hc Hf].
    simpl. congruence.
  - by apply planned_world in Hplan.
Qed.

Lemma planned_submissions_witness :
  length six_in_twos = Z.to_nat ((6 + 2 - 1) / 2) /\
  Forall (fun p : call * path => call_file p.1 = p.2) six_in_twos /\
  six_in_twos_world =
    World (files w0) (tmp_next w0 + length six_in_twos)%nat (out w0)
          (trace w0 ++ (submit_of <$> six_in_twos)).
Proof.
  apply (planned_submissions 4 6 2 w0 six_in_twos six_in_twos_world).
  - lia.
  - reflexivity.
Defined.

(** X3.  The planned ranges ascend without overlap, and each starts on the
    byte after the end of the one before it. *)
Theorem planned_ranges_ascend fuel size chunk_size w futures w1
    (i j : nat) s e s' e' :
  plan_loop fuel size chunk_size 0 [] w = Some (futures, w1) ->
  (i < j)%nat ->
  ranges_of futures !! i = Some (s, e) ->
  ranges_of futures !! j = Some (s', e') ->
  e < s' /\ (j = S i -> s' = e + 1).
Proof.
  intros Hplan Hij Hi Hj.
  assert (Hcs : 1 <= chunk_size).
  { eapply planned_chunk_size_pos; [done|]. intros ->. done. }
  split.
  - by eapply (planned_disjoint _ _ _ _ _ _ Hcs Hplan i j).
  - intros ->. by eapply (planned_contiguous _ _ _ _ _ _ Hcs Hplan i).
Qed.

Lemma planned_ranges_ascend_witness :
  1 < 2 /\ (1%nat = 1%nat -> 2 = 1 + 1).
Proof.
  apply (planned_ranges_ascend 4 6 2 w0 six_in_twos six_in_twos_world 0 1 0 1 2 3).
  - reflexivity.
  - lia.
  - reflexivity.
  - reflexivity.
Defined.

(** X4.  Every byte offset of the resource lies in exactly one planned
    range. *)
Theorem planned_ranges_partition fuel size chunk_size w futures w1 x :
  plan_loop fuel size chunk_size 0 [] w = Some (futures, w1) ->
  0 <= x < size ->
  exists (i : nat) s e,
    ranges_of futures !! i = Some (s, e) /\ s <= x <= e /\
    forall (j : nat) s' e',
      ranges_of futures !! j = Some (s', e') -> s' <= x <= e' -> j = i.
Proof.
  intros Hplan Hx.
  assert (Hcs : 1 <= chunk_size).
  { destruct (Z.le_gt_cases 1 chunk_size) as [|Hlt]; [done|].
    rewrite plan_loop_diverges in Hplan by lia. done. }
  destruct (planned_cover _ _ _ _ _ _ Hcs Hplan x Hx) as (i & s & e & Hi & Hin).
  exists i, s, e. split; [done|]. split; [done|].
  intros j s' e' Hj Hin'.
  destruct (Nat.lt_trichotomy j i) as [Hlt|[Heq|Hgt]]; [|done|].
  - pose proof (planned_disjoint _ _ _ _ _ _ Hcs Hplan j i _ _ _ _ Hlt Hj Hi). lia.
  - pose proof (planned_disjoint _ _ _ _ _ _ Hcs Hplan i j _ _ _ _ Hgt Hi Hj). lia.
Qed.

Lemma planned_ranges_partition_witness :
  exists (i : nat) s e,
    ranges_of six_in_twos !! i = Some (s, e) /\ s <= 3 <= e /\
    forall (j : nat) s' e',
      ranges_of six_in_twos !! j = Some (s', e') -> s' <= 3 <= e' -> j = i.
Proof.
  apply (planned_ranges_partition 4 6 2 w0 six_in_twos six_in_twos_world 3).
  - reflexivity.
  - lia.
Defined.

(** X5.  The last planned range ends on the last byte, [size - 1], when
    [chunk_size] divides [size], and on [size] when it does not. *)
Theorem planned_last_end fuel size chunk_size w futures w1 s e :
  plan_loop fuel size chunk_size 0 [] w = Some (futures, w1) ->
  last (ranges_of futures) = Some (s, e) ->
  (size mod chunk_size = 0 /\ e = size - 1) \/
  (size mod chunk_size <> 0 /\ e = size).
Proof.
  intros Hplan Hlast.
  assert (Hcs : 1 <= chunk_size).
  { eapply planned_chunk_size_pos; [done|]. intros ->. done. }
  pose proof (planned_last _ _ _ _ _ _ Hcs Hplan _ _ Hlast) as He.
  destruct (decide (size mod chunk_size = 0)); [left|right]; done.
Qed.

Lemma planned_last_end_witness :
  (5 mod 2 = 0 /\ 5 = 5 - 1) \/ (5 mod 2 <> 0 /\ 5 = 5).
Proof.
  apply (planned_last_end 4 5 2 w0 six_in_twos six_in_twos_world 4 5).
  - reflexivity.
  - reflexivity.
Defined.

(** ** Leaving the planning loop *)

(** X6.  Given fuel for [size] iterations, [download] gets past the
    planning loop, and so returns or raises, exactly when
    [chunk_size >= 1] or the resource is empty ([size <= 0]). *)
Theorem download_ends_iff int fuel srv chunk_size max_workers size w :
  sized int srv size ->
  0 < max_workers ->
  (Z.to_nat size < fuel)%nat ->
  is_Some (download int fuel srv chunk_size max_workers w) <->
  1 <= chunk_size \/ size <= 0.
Proof.
  intros Hsized Hmw Hfuel. split.
  - intros Hsome.
    destruct (Z.le_gt_cases 1 chunk_size) as [|Hcs]; [by left|].
    destruct (Z.le_gt_cases size 0) as [|Hsize]; [by right|].
    rewrite (download_diverges int fuel srv chunk_size max_workers size w) in Hsome
      by done.
    by destruct Hsome.
  - intros [Hcs|Hsize]; [by eapply download_terminates|].
    rewrite (download_sized int fuel srv chunk_size max_workers size Hsized Hmw).
    destruct fuel as [|fuel]; [lia|]. simpl.
    destruct (Z.ltb_spec 0 size); [lia|]. done.
Qed.

Lemma download_ends_iff_witness :
  is_Some (download int_digits 7 srv_two_fail 2 20 w0) <-> 1 <= 2 \/ 6 <= 0.
Proof.
  apply (download_ends_iff int_digits 7 srv_two_fail 2 20 6 w0).
  - probe_says "6"%string.
  - lia.
  - simpl. lia.
Defined.

(** ** What [download_chunk] touches *)


(** ** The outcome of a planned session *)

Lemma all_or_failing srv (futures : list (call * path)) :
  Forall (fun p : call * path => succeeded (fetch srv p.1)) futures \/
  exists (j : nat) c f, futures !! j = Some (c, f) /\ ~ succeeded (fetch srv c).
Proof.
  induction futures as [|[c f] rest IH]; [by left|].
  destruct (fetch srv c) as [v|e] eqn:Hc.
  - destruct IH as [Hall|(j & c' & f' & Hj & Hfail)].
    + left. constructor; [|done]. simpl. by rewrite Hc.
    + right. by exists (S j), c', f'.
  - right. exists 0%nat, c, f. split; [done|]. rewrite Hc. simpl. tauto.
Qed.

(** X8.  Once the calls are planned there are two outcomes and no third.
    Either every call returned, and [download] returns with all bodies
    appended to [out] in range order and no [cancel()] issued; or some call
    raised, and [download] raises what the first such call raised, with the
    bodies before it appended and every other future cancelled.  Line 54
    never fails to find a chunk file. *)
Theorem download_outcome int fuel srv chunk_size max_workers size w futures w1 :
  sized int srv size ->
  0 < max_workers ->
  plan_loop fuel size chunk_size 0 [] w = Some (futures, w1) ->
  (Forall (fun p : call * path => succeeded (fetch srv p.1)) futures /\
   download int fuel srv chunk_size max_workers w =
   Some (Ok tt,
         World (executor_exit srv futures (files w)).2
               (tmp_next w + length futures)%nat
               (out w ++ concat (body srv <$> futures.*1))
               (trace w ++ (submit_of <$> futures))))
  \/
  (exists (k : nat) e,
     first_error srv futures k e /\
     download int fuel srv chunk_size max_workers w =
     Some (Err e,
           World (executor_exit srv futures (files w)).2
                 (tmp_next w + length futures)%nat
                 (out w ++ concat (body srv <$> (take k futures).*1))
                 (trace w ++ (submit_of <$> futures) ++ cancels 0 (length futures) k))).
Proof.
  intros Hsized Hmw Hplan.
  destruct (all_or_failing srv futures) as [Hall|(j & c & f & Hj & Hfail)].
  - left. split; [done|]. eapply download_all_ok; [done..|].
    intros i ci fi Hi. by apply (proj1 (Forall_lookup _ _) Hall i (ci, fi)).
  - right.
    destruct (first_error_exists srv futures j c f Hj Hfail)
      as (k & e & _ & Hfirst).
    exists k, e. split; [done|].
    destruct Hfirst as [(ck & fk & Hk & He) Hbefore].
    by eapply download_first_err.
Qed.

Lemma download_outcome_witness :
  (Forall (fun p : call * path => succeeded (fetch srv_two_fail p.1)) six_in_twos /\
   download int_digits 4 srv_two_fail 2 20 w0 =
   Some (Ok tt,
         World (executor_exit srv_two_fail six_in_twos (files w0)).2
               (tmp_next w0 + length six_in_twos)%nat
               (out w0 ++ concat (body srv_two_fail <$> six_in_twos.*1))
               (trace w0 ++ (submit_of <$> six_in_twos))))
  \/
  (exists (k : nat) e,
     first_error srv_two_fail six_in_twos k e /\
     download int_digits 4 srv_two_fail 2 20 w0 =
     Some (Err e,
           World (executor_exit srv_two_fail six_in_twos (files w0)).2
                 (tmp_next w0 + length six_in_twos)%nat
                 (out w0 ++ concat (body srv_two_fail <$> (take k six_in_twos).*1))
                 (trace w0 ++ (submit_of <$> six_in_twos) ++
                  cancels 0 (length six_in_twos) k))).
Proof.
  apply (download_outcome int_digits 4 srv_two_fail 2 20 6 w0
           six_in_twos six_in_twos_world).
  - probe_says "6"%string.
  - lia.
  - reflexivity.
Defined.

Lemma download_reassembles_witness :
  exists w',
    download int_digits 6 (range_server "5" hello) 2 20 w0 = Some (Ok tt, w') /\
    out w' = out w0 ++ hello.
Proof.
  apply (download_reassembles int_digits 6 "5" hello 2 20 w0).
  - probe_says "5"%string.
  - lia.
  - lia.
  - simpl. lia.
Defined.

(** ** A server without range support *)






(** ** Files of failed calls *)

(** With pairwise different file names, the chunk file of a call is, after
    the join, what that call alone made of it. *)
Lemma executor_exit_own_file srv futures : forall fs (j : nat) c f,
  NoDup (call_file <$> futures.*1) ->
  futures !! j = Some (c, f) ->
  (executor_exit srv futures fs).2 !! call_file c =
  if reaches_open srv c then Some (body srv c) else fs !! call_file c.
Proof.
  induction futures as [|[c0 f0] rest IH]; intros fs j c f Hnd Hj; [done|].
  simpl in Hnd. apply NoDup_cons in Hnd as [Hnotin Hnd].
  pose proof (executor_exit_other srv rest (call_file c0)) as Hother.
  pose proof (download_chunk_files srv c0 fs) as Hfs.
  simpl.
  destruct (download_chunk _ _ _ _ _) as [r fs1].
  specialize (IH fs1). specialize (Hother fs1 Hnotin).
  destruct (executor_exit srv rest fs1) as [done' fs2]. simpl in *.
  destruct j as [|j]; simpl in Hj.
  - inversion Hj; subst. rewrite Hother.
    destruct (reaches_open srv c); [|done]. by rewrite lookup_insert_eq.
  - rewrite (IH j c f Hnd Hj). destruct (reaches_open srv c); [done|].
    subst fs1. destruct (reaches_open srv c0); [|done].
    apply lookup_insert_ne. intros Heq. apply Hnotin. rewrite Heq.
    apply list_elem_of_fmap. exists c. split; [done|].
    apply list_elem_of_fmap. exists (c, f). split; [done|].
    by eapply list_elem_of_lookup_2.
Qed.

(** A call that opened its file and still raised did so in [res.read()]:
    it has no body. *)
Lemma failed_open_body srv c :
  ~ succeeded (fetch srv c) -> reaches_open srv c = true -> body srv c = [].
Proof.
  unfold fetch, body, reaches_open, download_chunk, PARTIAL_CONTENT.
  destruct (urlopen_range srv _ _) as [res|e]; [|done].
  destruct (Z.geb_spec (status res) 400) as [Hge|Hlt];
    destruct (Z.eqb_spec (status res) 206) as [Heq|Hne]; simpl; try done; try lia.
  destruct (read res); [|done]. simpl. tauto.
Qed.

(** X11.  What a call that raised leaves of its chunk file.  When it raised
    before line 24, because [urlopen] raised or the status was not 206, the
    file is not created: the name holds what it held before the session.
    When it raised in [res.read()], the file is left created and empty.
    This is so whatever the outcome of the session. *)
Theorem failed_call_file int fuel srv chunk_size max_workers size
    w futures w1 (j : nat) c f :
  sized int srv size ->
  0 < max_workers ->
  plan_loop fuel size chunk_size 0 [] w = Some (futures, w1) ->
  futures !! j = Some (c, f) ->
  ~ succeeded (fetch srv c) ->
  exists r w',
    download int fuel srv chunk_size max_workers w = Some (r, w') /\
    (reaches_open srv c = false /\ files w' !! f = files w !! f \/
     reaches_open srv c = true /\ files w' !! f = Some []).
Proof.
  intros Hsized Hmw Hplan Hj Hfail.
  rewrite (download_sized int fuel srv chunk_size max_workers size Hsized Hmw), Hplan.
  rewrite (planned_world _ _ _ _ _ _ Hplan). simpl.
  pose proof (planned_chain _ _ _ _ _ _ Hplan) as Hch.
  match goal with |- context [Some ?x] => set (rw := x) end.
  exists rw.1, rw.2. split; [by destruct rw|].
  unfold rw. rewrite result_loop_files. simpl.
  destruct (chain_file _ _ _ _ _ Hch _ _ _ Hj) as [Hc Hf].
  rewrite Hf, <- Hc.
  rewrite (executor_exit_own_file srv futures (files w) j c f
             (chain_NoDup _ _ _ _ _ Hch) Hj).
  destruct (reaches_open srv c) eqn:Hopen; [right|by left].
  split; [done|]. f_equal. by apply failed_open_body.
Qed.

Lemma failed_call_file_witness :
  exists r w',
    download int_digits 4 srv_broken_read 2 20 w0 = Some (r, w') /\
    (reaches_open srv_broken_read (Call 2 3 1%nat) = false /\
       files w' !! 1%nat = files w0 !! 1%nat \/
     reaches_open srv_broken_read (Call 2 3 1%nat) = true /\
       files w' !! 1%nat = Some []).
Proof.
  apply (failed_call_file int_digits 4 srv_broken_read 2 20 6 w0
           six_in_twos six_in_twos_world 1%nat (Call 2 3 1%nat) 1%nat).
  - probe_says "6"%string.
  - lia.
  - reflexivity.
  - reflexivity.
  - vm_compute. intros H; exact H.
Defined.

(** ** What [download] never undoes *)

Lemma result_loop_appends all futures : forall i w,
  (exists written, out (result_loop all i futures w).2 = out w ++ written) /\
  (exists events, trace (result_loop all i futures w).2 = trace w ++ events) /\
  tmp_next (result_loop all i futures w).2 = tmp_next w.
Proof.
  induction futures as [|[r f] rest IH]; intros i w; simpl.
  - split; [|split]; [exists []|exists []|done]; by rewrite app_nil_r.
  - destruct r as [v|e].
    + destruct (files w !! f) as [data|]; simpl.
      * destruct (IH (S i) (write data w)) as ((wr & Hout) & (ev & Htr) & Htmp).
        rewrite Hout, Htr, Htmp. simpl. split; [|split]; [|by exists ev|done].
        exists (data ++ wr). by rewrite app_assoc.
      * split; [|split]; [exists []|exists []|done]; by rewrite app_nil_r.
    + simpl. rewrite cancel_others_spec. simpl.
      split; [|split]; [exists []|by eexists|done]. by rewrite app_nil_r.
Qed.

(** X12.  Whatever the outcome, [download] only adds: what was in [out] and
    in the log of pool operations is still there, in front of what the call
    added, and the supply of temporary names only moves forward. *)
Theorem download_only_appends int fuel srv chunk_size max_workers w r w' :
  download int fuel srv chunk_size max_workers w = Some (r, w') ->
  (exists written, out w' = out w ++ written) /\
  (exists events, trace w' = trace w ++ events) /\
  (tmp_next w <= tmp_next w')%nat.
Proof.
  assert (Hsame : (exists written, out w = out w ++ written) /\
                  (exists events, trace w = trace w ++ events) /\
                  (tmp_next w <= tmp_next w)%nat).
  { split; [|split]; [exists []|exists []|done]; by rewrite app_nil_r. }
  unfold download. intros H.
  destruct (urlopen_url srv) as [[s|]|e]; [|by inversion H; subst..].
  destruct s as [|a s]; [by inversion H; subst|].
  destruct (int _) as [size|]; [|by inversion H; subst].
  destruct (max_workers <=? 0); [by inversion H; subst|].
  destruct (plan_loop _ _ _ _ _ _) as [[futures w1]|] eqn:Hplan; [|done].
  destruct (executor_exit srv futures (files w1)) as [done' fs].
  inversion H as [Hrw]. clear H.
  destruct (result_loop_appends done' done' 0%nat (set_files fs w1))
    as ((wr & Hout) & (ev & Htr) & Htmp).
  rewrite Hrw in Hout, Htr, Htmp. simpl in Hout, Htr, Htmp.
  rewrite (planned_world _ _ _ _ _ _ Hplan) in Hout, Htr, Htmp.
  simpl in Hout, Htr, Htmp. split; [|split].
  - by exists wr.
  - exists ((submit_of <$> futures) ++ ev). by rewrite app_assoc.
  - lia.
Qed.

Lemma download_only_appends_witness :
  (exists written,
     out (World {[ 0%nat := [Byte.x61; Byte.x62] ]} 3%nat [Byte.x61; Byte.x62]
            [Submit 0 1 0%nat; Submit 2 3 1%nat; Submit 4 5 2%nat; Cancel 0; Cancel 2])
     = out w0 ++ written) /\
  (exists events,
     trace (World {[ 0%nat := [Byte.x61; Byte.x62] ]} 3%nat [Byte.x61; Byte.x62]
              [Submit 0 1 0%nat; Submit 2 3 1%nat; Submit 4 5 2%nat; Cancel 0; Cancel 2])
     = trace w0 ++ events) /\
  (tmp_next w0 <=
   tmp_next (World {[ 0%nat := [Byte.x61; Byte.x62] ]} 3%nat [Byte.x61; Byte.x62]
               [Submit 0 1 0%nat; Submit 2 3 1%nat; Submit 4 5 2%nat; Cancel 0; Cancel 2]))%nat.
Proof.
  apply (download_only_appends int_digits 4 srv_two_fail 2 20 w0
           (Err (HTTPError 500 "Internal Server Error"))).
  reflexivity.
Defined.

(** ** An empty or negative size *)

(** X13.  A size of zero or below, as a negative [content-length] gives,
    is an empty resource: [download] submits nothing, writes nothing and
    returns, whatever [chunk_size] is. *)
Theorem download_nonpositive_size int fuel srv chunk_size max_workers size w :
  sized int srv size ->
  size <= 0 ->
  0 < max_workers ->
  (0 < fuel)%nat ->
  download int fuel srv chunk_size max_workers w = Some (Ok tt, w).
Proof.
  intros Hsized Hsize Hmw Hfuel.
  rewrite (download_sized int fuel srv chunk_size max_workers size Hsized Hmw).
  destruct fuel as [|fuel]; [lia|]. simpl.
  destruct (Z.ltb_spec 0 size); [lia|]. simpl. by destruct w.
Qed.

Lemma download_nonpositive_size_witness :
  download int_signed 1 (range_server "-5" []) 0 20 w0 = Some (Ok tt, w0).
Proof.
  apply (download_nonpositive_size int_signed 1 (range_server "-5" []) 0 20 (-5) w0).
  - probe_says "-5"%string.
  - lia.
  - lia.
  - lia.
Defined.

(** ** Chunk files against a server that honours ranges *)

(** A planned range is not empty and not longer than [chunk_size]. *)
Lemma planned_range_bounds fuel size chunk_size w futures w1 (i : nat) s e :
  plan_loop fuel size chunk_size 0 [] w = Some (futures, w1) ->
  ranges_of futures !! i = Some (s, e) ->
  s <= e /\ e - s + 1 <= chunk_size.
Proof.
  intros Hplan Hi.
  assert (Hcs : 1 <= chunk_size).
  { eapply planned_chunk_size_pos; [done|]. intros ->. done. }
  destruct (planned_range _ _ _ _ _ _ Hcs Hplan _ _ _ Hi) as (Hs & He & Hlt & Hle).
  split; [done|]. lia.
Qed.

Lemma slice_length data s e :
  s <= e -> Z.of_nat (length (slice data s e)) <= e - s + 1.
Proof.
  intros Hse. unfold slice. rewrite length_take. lia.
Qed.

(** X14.  Against a server that honours ranges, every planned call leaves
    in its chunk file the slice of the resource it asked for, which is never
    longer than [chunk_size] bytes. *)
Theorem staged_chunk_bounded int fuel content_length data chunk_size max_workers
    size w futures w1 (j : nat) c f :
  sized int (range_server content_length data) size ->
  0 < max_workers ->
  plan_loop fuel size chunk_size 0 [] w = Some (futures, w1) ->
  futures !! j = Some (c, f) ->
  exists r w',
    download int fuel (range_server content_length data) chunk_size max_workers w
      = Some (r, w') /\
    files w' !! f = Some (slice data (call_start c) (call_end c)) /\
    Z.of_nat (length (slice data (call_start c) (call_end c))) <= chunk_size.
Proof.
  intros Hsized Hmw Hplan Hj.
  rewrite (download_sized int fuel _ chunk_size max_workers size Hsized Hmw), Hplan.
  rewrite (planned_world _ _ _ _ _ _ Hplan). simpl.
  pose proof (planned_chain _ _ _ _ _ _ Hplan) as Hch.
  match goal with |- context [Some ?x] => set (rw := x) end.
  exists rw.1, rw.2. split; [by destruct rw|].
  unfold rw. rewrite result_loop_files. simpl. split.
  - destruct (chain_file _ _ _ _ _ Hch _ _ _ Hj) as [Hc Hf].
    rewrite Hf, <- Hc.
    by rewrite (executor_exit_staged _ futures (files w) j c f
                  (chain_NoDup _ _ _ _ _ Hch) Hj (fetch_range_server _ _ _)).
  - assert (Hi : ranges_of futures !! j = Some (call_start c, call_end c)).
    { unfold ranges_of. by rewrite list_lookup_fmap, Hj. }
    destruct (planned_range_bounds fuel size chunk_size w futures w1 j _ _ Hplan Hi)
      as [Hle Hlen].
    pose proof (slice_length data _ _ Hle). lia.
Qed.

Lemma staged_chunk_bounded_witness :
  exists r w',
    download int_digits 4 (range_server "5" hello) 2 20 w0 = Some (r, w') /\
    files w' !! 2%nat = Some (slice hello 4 5) /\
    Z.of_nat (length (slice hello 4 5)) <= 2.
Proof.
  apply (staged_chunk_bounded int_digits 4 "5" hello 2 20 5 w0
           six_in_twos six_in_twos_world 2%nat (Call 4 5 2%nat) 2%nat).
  - probe_says "5"%string.
  - lia.
  - reflexivity.
  - reflexivity.
Defined.
